(** * scripts/etl.py: carpark availability ETL

    A shallow embedding of [scripts/etl.py] and the properties of its
    name normalisation, dual-format extraction, enrichment and
    persistence.

    Conventions of the embedding:
    - a Python [str] is a list of code points ([N]), so that the
      white-space class of [str.strip] and [str.split] is the real one;
      source literals are written [u "..."];
    - a Python value handled by the script (a decoded JSON value, [None],
      an [int]) is a [json];
    - a call that may raise returns a [result];
    - the library calls whose tables cannot be written down here
      ([unicodedata], [str.lower], [json.loads], BeautifulSoup,
      [pandas.read_csv]) are the fields of the class [Platform]; theorems
      hold for every instance;
    - a CSV file is the table written to it; reading it back goes
      through [read_csv], which may change cells or raise;
    - floating point numbers are binary64 values of [SpecFloat]. *)

From Stdlib Require Import ZArith NArith Ascii String SpecFloat Lia.
From stdpp Require Import base option list gmap strings.

Set Warnings "-register-all".

(** ** Strings *)

Abbreviation char := N.
Abbreviation str := (list N).

(** A source literal: the code points of an ASCII string. *)
Definition u (s : string) : str := N_of_ascii <$> list_ascii_of_string s.

(** [str.isspace] on one code point: the characters that [str.strip()]
    and [str.split()] treat as white space. *)
Definition isspace (c : char) : bool :=
  (((9 <=? c) && (c <=? 13)) || ((28 <=? c) && (c <=? 32))
   || (c =? 133) || (c =? 160) || (c =? 5760)
   || ((8192 <=? c) && (c <=? 8202))
   || (c =? 8232) || (c =? 8233) || (c =? 8239) || (c =? 8287)
   || (c =? 12288))%N.

Fixpoint lstrip (s : str) : str :=
  match s with
  | c :: s' => if isspace c then lstrip s' else s
  | [] => []
  end.

Definition rstrip (s : str) : str := reverse (lstrip (reverse s)).

(** [s.strip()] *)
Definition strip (s : str) : str := rstrip (lstrip s).

(** [s.split()]: the maximal runs of non-space characters. [cur] is the
    run being read, last character first. *)
Fixpoint split_from (cur : str) (s : str) : list str :=
  match s with
  | [] => match cur with [] => [] | _ => [reverse cur] end
  | c :: s' =>
      if isspace c
      then match cur with
           | [] => split_from [] s'
           | _ => reverse cur :: split_from [] s'
           end
      else split_from (c :: cur) s'
  end.

Definition split (s : str) : list str := split_from [] s.

(** [sep.join(parts)] *)
Fixpoint join (sep : str) (parts : list str) : str :=
  match parts with
  | [] => []
  | [p] => p
  | p :: ps => p ++ sep ++ join sep ps
  end.

(** [s.startswith(c)] for a one-character prefix. *)
Definition startswith (s : str) (c : char) : bool :=
  match s with
  | c' :: _ => (c' =? c)%N
  | [] => false
  end.

(** [s.find(c)] for a one-character needle: the first index, or -1. *)
Fixpoint find_from (i : Z) (s : str) (c : char) : Z :=
  match s with
  | [] => (-1)%Z
  | c' :: s' => if (c' =? c)%N then i else find_from (i + 1)%Z s' c
  end.

Definition find (s : str) (c : char) : Z := find_from 0%Z s c.

(** [s.rfind(c)]: the last index, or -1. *)
Fixpoint rfind_from (i : Z) (last : Z) (s : str) (c : char) : Z :=
  match s with
  | [] => last
  | c' :: s' =>
      rfind_from (i + 1)%Z (if (c' =? c)%N then i else last) s' c
  end.

Definition rfind (s : str) (c : char) : Z := rfind_from 0%Z (-1)%Z s c.

(** [s[a:b]] for [0 <= a]. *)
Definition slice (s : str) (a b : Z) : str :=
  take (Z.to_nat (b - a)) (drop (Z.to_nat a) s).

Fixpoint is_prefix (p s : str) : bool :=
  match p, s with
  | [], _ => true
  | _ :: _, [] => false
  | a :: p', b :: s' => (a =? b)%N && is_prefix p' s'
  end.

(** [needle in hay] *)
Fixpoint contains (needle hay : str) : bool :=
  is_prefix needle hay ||
  match hay with
  | [] => false
  | _ :: hay' => contains needle hay'
  end.

(** ** Values and exceptions *)

(** The values the script moves around: what [json.loads] returns,
    [None] ([JNull]) and the integers of the HTML path ([JInt]). *)
Inductive json :=
| JNull
| JBool (b : bool)
| JInt (n : Z)
| JFloat (f : spec_float)
| JStr (s : str)
| JArr (items : list json)
| JObj (members : list (str * json)).

(** The exceptions of a run: of a method call on a value that lacks the
    method, of [requests], and of [pd.read_csv] on a file without
    columns. *)
Inductive exn :=
| AttributeError
| HTTPError
| Timeout
| ConnectionError
| EmptyDataError.

Inductive result (A : Type) :=
| Ok (a : A)
| Raise (e : exn).
Arguments Ok {A} a.
Arguments Raise {A} e.

#[global] Instance result_ret : MRet result := @Ok.
#[global] Instance result_bind : MBind result := λ A B f m,
  match m with
  | Ok a => f a
  | Raise e => Raise e
  end.
#[global] Instance result_fmap : FMap result := λ A B f m,
  match m with
  | Ok a => Ok (f a)
  | Raise e => Raise e
  end.

(** [for x in xs: out.append(f(x))], stopping at the first exception. *)
Fixpoint collect {A B} (f : A → result B) (xs : list A) : result (list B) :=
  match xs with
  | [] => Ok []
  | x :: xs' => y ← f x; ys ← collect f xs'; Ok (y :: ys)
  end.

(** Truth value of a Python object, as tested by [or], [if] and [not]. *)
Definition truthy (v : json) : bool :=
  match v with
  | JNull => false
  | JBool b => b
  | JInt n => negb (n =? 0)%Z
  | JFloat (S754_zero _) => false
  | JFloat _ => true
  | JStr [] => false
  | JStr _ => true
  | JArr [] => false
  | JArr _ => true
  | JObj [] => false
  | JObj _ => true
  end.

(** [a or b] *)
Definition py_or (a b : json) : json := if truthy a then a else b.

(** [d.get(k)] on a [dict]: the value, or [None]. The member list holds
    one entry per key. *)
Fixpoint lookup_member (k : str) (members : list (str * json)) : option json :=
  match members with
  | [] => None
  | (k', v) :: rest =>
      if bool_decide (k' = k) then Some v else lookup_member k rest
  end.

Definition dict_get (members : list (str * json)) (k : str) : json :=
  default JNull (lookup_member k members).

(** A row of the output frame, and of the CSV files that hold such
    frames: each field is the value of a cell. *)
Module Enriched.
Record t := mk {
  timestamp_utc : str;
  carpark : str;
  available_spaces : json;
  total_spaces : option Z;
  occupancy : option spec_float;
  status : str;
  parking_option : json;
  source_last_updated : str;
}.
End Enriched.

(** ** The platform *)

(** The library functions that the script calls and that are tables or
    parsers of their own:
    - [nfkd s] is [unicodedata.normalize("NFKD", s)];
    - [combining ch] is [unicodedata.combining(ch) != 0];
    - [lower s] is [s.lower()];
    - [decimal ch] is the digit value of a character of category Nd,
      the characters that [\d] matches and [int()] reads;
    - [int_max_str_digits] is [sys.get_int_max_str_digits()], 0 for no
      limit;
    - [json_loads s] is [json.loads(s)], [None] when it raises;
    - [select_cells s] lists, for each element that
      [BeautifulSoup(s, "html.parser").select(".divTable .divTableRow")]
      yields, [get_text(strip=True)] of its [.divTableCell] elements;
    - [read_csv stored] is [pd.read_csv] on a file that holds the table
      [stored]: the rows as pandas parses them again, each cell with the
      value that [to_csv] writes back, or the exception that the parser
      raises. *)
Class Platform := {
  nfkd : str → str;
  combining : char → bool;
  lower : str → str;
  decimal : char → option Z;
  int_max_str_digits : nat;
  json_loads : str → option json;
  select_cells : str → list (list str);
  read_csv : list Enriched.t → result (list Enriched.t);
}.

Section Etl.
Context {P : Platform}.

(** ** Name normalisation and aliases *)

(** [_norm] on a string: trim, collapse white-space runs, decompose,
    drop combining marks, lower-case. *)
Definition _norm (s : str) : str :=
  let s := strip s in
  let s := join (u " ") (split s) in
  let s := nfkd s in
  let s := filter (λ ch, combining ch = false) s in
  lower s.

(** [(v or "")] followed by a [str] method: a truthy value that is not a
    string has no [strip]. *)
Definition or_empty (v : json) : result str :=
  if truthy v
  then match v with
       | JStr s => Ok s
       | _ => Raise AttributeError
       end
  else Ok [].

(** [_norm(v)] for any value [v]. *)
Definition norm_value (v : json) : result str :=
  s ← or_empty v; Ok (_norm s).

(** The dict literal [ALIASES]: entries are inserted in source order,
    a later key replacing an equal earlier one. *)
Definition ALIASES : gmap str str :=
  <[_norm (u "Toka Puia") := u "Toka Puia"]>
  (<[_norm (u "Ronwood") := u "Ronwood"]>
  (<[_norm (u "Downtown") := u "Downtown"]>
  (<[_norm (u "Civic") := u "Civic"]>
  (<[_norm (u "Victoria Street") := u "Victoria Street"]>
  (<[_norm (u "Victoria St") := u "Victoria Street"]> ∅))))).

Definition IGNORE_CARPARKS : gset str := {[ u "albert street" ]}.

Definition STOP_COLLECTING : gset str := {[ _norm (u "Downtown") ]}.

Definition IGNORE : str := u "__IGNORE__".

(** [canonical_name] on a string. *)
Definition canonical (raw_name : str) : str :=
  let k := _norm raw_name in
  if bool_decide (k ∈ IGNORE_CARPARKS) then IGNORE
  else default (strip raw_name) (ALIASES !! k).

(** [canonical_name(raw_name)] for any value: both [_norm(raw_name)] and
    [(raw_name or "").strip()] go through [or_empty]. *)
Definition canonical_name (raw_name : json) : result str :=
  s ← or_empty raw_name; Ok (canonical s).

(** ** Integer coercion *)

(** The digits of an [int()] literal: decimal digits, single underscores
    only between digits. Returns the value and the number of digits. *)
Fixpoint read_digits (acc : Z) (count : nat) (after_digit : bool) (s : str)
  : option (Z * nat) :=
  match s with
  | [] => if after_digit then Some (acc, count) else None
  | c :: s' =>
      if (c =? 95)%N
      then (if after_digit then read_digits acc count false s' else None)
      else match decimal c with
           | Some d => read_digits (10 * acc + d)%Z (S count) true s'
           | None => None
           end
  end.

Definition within_digit_limit (count : nat) : bool :=
  match int_max_str_digits with
  | O => true
  | limit => bool_decide (count ≤ limit)
  end.

Definition read_unsigned (s : str) : option Z :=
  match read_digits 0%Z 0 false s with
  | Some (n, count) => if within_digit_limit count then Some n else None
  | None => None
  end.

(** White space around an [int()] literal: below U+007F the six
    characters of the C locale, from there on those of [str.isspace]. *)
Definition int_isspace (c : char) : bool :=
  if (c <? 127)%N
  then (((9 <=? c) && (c <=? 13)) || (c =? 32))%N
  else isspace c.

Fixpoint int_lstrip (s : str) : str :=
  match s with
  | c :: s' => if int_isspace c then int_lstrip s' else s
  | [] => []
  end.

Definition int_strip (s : str) : str :=
  reverse (int_lstrip (reverse (int_lstrip s))).

(** [int(s)] for a string, [None] for [ValueError]. *)
Definition int_of_str (s : str) : option Z :=
  match int_strip s with
  | 43%N :: ds => read_unsigned ds
  | 45%N :: ds => Z.opp <$> read_unsigned ds
  | ds => read_unsigned ds
  end.

(** [int(f)] for a float: truncation; [None] for infinities and NaN. *)
Definition int_of_float (f : spec_float) : option Z :=
  match f with
  | S754_zero _ => Some 0%Z
  | S754_finite s m e =>
      let a := Z.shiftl (Z.pos m) e in
      Some (if s then (- a)%Z else a)
  | _ => None
  end.

(** [int(v)], [None] when it raises (TypeError, ValueError,
    OverflowError). *)
Definition py_int (v : json) : option Z :=
  match v with
  | JBool b => Some (if b then 1 else 0)%Z
  | JInt n => Some n
  | JFloat f => int_of_float f
  | JStr s => int_of_str s
  | JNull | JArr _ | JObj _ => None
  end.

(** ** Floats *)

Definition prec : Z := 53.
Definition emax : Z := 1024.

(** The binary64 nearest to [a / b] for integers [0 < a], [0 < b], with
    sign [s]; an infinity on overflow. *)
Definition nearest_ratio (s : bool) (a b : Z) : spec_float :=
  let '(q, e, l) := SFdiv_core_binary prec emax a 0 b 0 in
  binary_round_aux prec emax s q e l.

(** [a / b] on integers: correctly rounded; [None] for
    ZeroDivisionError and for OverflowError. *)
Definition truediv (a b : Z) : option spec_float :=
  if (b =? 0)%Z then None
  else if (a =? 0)%Z then Some (S754_zero (b <? 0)%Z)
  else match nearest_ratio (xorb (a <? 0)%Z (b <? 0)%Z) (Z.abs a) (Z.abs b) with
       | S754_infinity _ => None
       | f => Some f
       end.

(** [num / den] rounded to the nearest integer, ties to even, for
    [0 <= num] and [0 < den]. *)
Definition round_half_even (num den : Z) : Z :=
  let q := (num / den)%Z in
  match (2 * (num mod den) ?= den)%Z with
  | Lt => q
  | Gt => (q + 1)%Z
  | Eq => if Z.even q then q else (q + 1)%Z
  end.

(** The float written [n]e-4, with sign [s]. *)
Definition of_ten_thousandths (s : bool) (n : Z) : spec_float :=
  if (n =? 0)%Z then S754_zero s else nearest_ratio s n 10000.

(** [round(x, 4)]: the exact value of [x] rounded to four decimals, ties
    to even, and read back as a float. *)
Definition round4 (x : spec_float) : spec_float :=
  match x with
  | S754_finite s m e =>
      let n := if (0 <=? e)%Z
               then (Z.pos m * 2 ^ e * 10000)%Z
               else round_half_even (Z.pos m * 10000) (2 ^ (- e)) in
      of_ten_thousandths s n
  | _ => x
  end.

(** ** Capacity lookup *)

(** A row of [csv.DictReader]: [row.get(column)] is [None] when the
    column or the cell is missing. *)
Record cap_row := {
  cell_carpark : option str;
  cell_total_spaces : option str;
}.

(** [str(x)] of a cell. *)
Definition str_of_cell (x : option str) : str := default (u "None") x.

(** The body of the loop of [load_capacity_lookup]. *)
Definition load_row (cap : gmap str Z) (row : cap_row) : gmap str Z :=
  let name := strip (default [] (cell_carpark row)) in
  let total_i := int_of_str (strip (str_of_cell (cell_total_spaces row))) in
  match name, total_i with
  | _ :: _, Some t => if (t =? 0)%Z then cap else <[name := t]> cap
  | _, _ => cap
  end.

(** [load_capacity_lookup()]; the argument is the content of
    [capacity_lookup.csv], [None] when the file does not exist. *)
Definition load_capacity_lookup (file : option (list cap_row)) : gmap str Z :=
  match file with
  | None => ∅
  | Some rows => foldl load_row ∅ rows
  end.

End Etl.

(** ** Records *)

(** A row as the extractors build it: the dict with the keys [carpark],
    [parking_option] and [available_spaces]. *)
Module Row.
Record t := mk {
  carpark : json;
  parking_option : json;
  available_spaces : json;
}.
End Row.

(** Which extractor produced the rows: [ViaHtml] when [run] called
    [parse_html_table]. *)
Inductive route := ViaJson | ViaHtml.

(** What [requests.get] does: raise, or return a response. *)
Inductive http_reply :=
| RequestFailed (e : exn)
| Reply (status_code : Z) (text : str) (content_type : option str).

(** The clock and the network, as one run sees them. *)
Record env := {
  ts_utc : str;
  epoch : Z;
  reply : http_reply;
}.

(** The files under [DATA_DIR]. A CSV file is the table that [to_csv]
    wrote to it, [None] when the file does not exist; what a later
    [pd.read_csv] makes of that table is [read_csv]. Raw dumps are keyed
    by their time stamp. *)
Record files := {
  capacity_csv : option (list cap_row);
  raw_dumps : gmap Z str;
  latest_csv : option (list Enriched.t);
  history_csv : option (list Enriched.t);
}.

Section Run.
Context {P : Platform}.

(** ** Fetch and parse *)

(** [resp.raise_for_status()]: client and server error codes raise. *)
Definition raise_for_status (status_code : Z) : result unit :=
  if (400 <=? status_code)%Z && (status_code <? 600)%Z
  then Raise HTTPError
  else Ok ().

Definition fetch_raw (e : env) (fs : files) : files * result (str * str) :=
  match reply e with
  | RequestFailed x => (fs, Raise x)
  | Reply status_code text content_type =>
      match raise_for_status status_code with
      | Raise x => (fs, Raise x)
      | Ok _ =>
          ({| capacity_csv := capacity_csv fs;
              raw_dumps := <[epoch e := text]> (raw_dumps fs);
              latest_csv := latest_csv fs;
              history_csv := history_csv fs |},
           Ok (text, default [] content_type))
      end
  end.

(** [json.loads(txt[start:end+1])] under its guard. *)
Definition loads_between (txt : str) (start stop : Z) : option json :=
  if negb (start =? -1)%Z && (start <? stop)%Z
  then json_loads (slice txt start (stop + 1))
  else None.

(** [try_parse_json]; the result [None] is [JNull]. *)
Definition try_parse_json (resp_text : str) : json :=
  let txt := strip resp_text in
  if startswith txt 123 || startswith txt 91
  then match json_loads txt with
       | Some v => v
       | None => JNull
       end
  else
    match loads_between txt (find txt 123) (rfind txt 125) with
    | Some v => v
    | None =>
        match loads_between txt (find txt 91) (rfind txt 93) with
        | Some v => v
        | None => JNull
        end
    end.

(** The dict built from one JSON record; [rec.get] exists on dicts
    only. *)
Definition record_of (rec : json) : result Row.t :=
  match rec with
  | JObj members =>
      let get := dict_get members in
      Ok {| Row.carpark :=
              py_or (get (u "carParkName")) (py_or (get (u "name")) (JStr []));
            Row.parking_option :=
              py_or (get (u "category")) (py_or (get (u "parkingOption")) (JStr []));
            Row.available_spaces :=
              py_or (get (u "availableSpaces")) (py_or (get (u "available")) JNull) |}
  | _ => Raise AttributeError
  end.

Definition container_keys : list str :=
  [u "data"; u "results"; u "items"; u "carParks"; u "CarParks"; u "Result"].

(** The loop over the container keys: the first key that holds a list
    supplies the records. *)
Fixpoint probe_keys (keys : list str) (members : list (str * json))
  : result (list Row.t) :=
  match keys with
  | [] => Ok []
  | key :: keys' =>
      match lookup_member key members with
      | Some (JArr items) => collect record_of items
      | _ => probe_keys keys' members
      end
  end.

Definition rows_of_data (data : json) : result (list Row.t) :=
  match data with
  | JArr items => collect record_of items
  | JObj members => probe_keys container_keys members
  | _ => Ok []
  end.

(** [int(re.sub(r"[^\d]", "", available))], [None] when it raises. *)
Definition coerce_available (available : str) : json :=
  match int_of_str (filter (λ ch, is_Some (decimal ch)) available) with
  | Some n => JInt n
  | None => JNull
  end.

(** One iteration of the loop of [parse_html_table]. *)
Definition html_row (cells : list str) : option Row.t :=
  match cells with
  | carpark :: option :: available :: _ =>
      if bool_decide (_norm carpark ∈ IGNORE_CARPARKS) then None
      else Some {| Row.carpark := JStr carpark;
                   Row.parking_option := JStr option;
                   Row.available_spaces := coerce_available available |}
  | _ => None
  end.

Definition parse_html_table (resp_text : str) : list Row.t :=
  omap html_row (select_cells resp_text).

(** The first part of [run]: from the response to [rows], with the
    extractor that supplied them. *)
Definition extract (body content_type : str) : result (route * list Row.t) :=
  let data :=
    if contains (u "application/json") (lower content_type)
    then try_parse_json body
    else JNull in
  let data :=
    match data with
    | JNull => try_parse_json body
    | _ => data
    end in
  rows ← rows_of_data data;
  match rows with
  | [] => Ok (ViaHtml, parse_html_table body)
  | _ => Ok (ViaJson, rows)
  end.

Definition extract_rows (body content_type : str) : result (list Row.t) :=
  snd <$> extract body content_type.

(** ** Normalise and enrich *)

(** [x in (None, "")] *)
Definition none_or_empty (v : json) : bool :=
  match v with
  | JNull | JStr [] => true
  | _ => false
  end.

(** The occupancy of a row, from [total] and [available]. *)
Definition occupancy_of (total : option Z) (available : json)
  : option spec_float :=
  match total with
  | Some t =>
      if negb (t =? 0)%Z && negb (none_or_empty available)
      then match py_int available with
           | Some a => round4 <$> truediv (t - a) t
           | None => None
           end
      else None
  | None => None
  end.

(** One iteration of the enrichment loop: [None] for [continue]. *)
Definition enrich_row (ts : str) (capacity : gmap str Z) (r : Row.t)
  : result (option Enriched.t) :=
  canon ← canonical_name (Row.carpark r);
  if bool_decide (canon = IGNORE) then Ok None
  else if bool_decide (_norm canon ∈ STOP_COLLECTING) then Ok None
  else
    let available := Row.available_spaces r in
    let total := capacity !! canon in
    Ok (Some {| Enriched.timestamp_utc := ts;
                Enriched.carpark := canon;
                Enriched.available_spaces := available;
                Enriched.total_spaces := total;
                Enriched.occupancy := occupancy_of total available;
                Enriched.status := [];
                Enriched.parking_option := Row.parking_option r;
                Enriched.source_last_updated := [] |}).

Fixpoint enrich (ts : str) (capacity : gmap str Z) (rows : list Row.t)
  : result (list Enriched.t) :=
  match rows with
  | [] => Ok []
  | r :: rows' =>
      o ← enrich_row ts capacity r;
      norm_rows ← enrich ts capacity rows';
      Ok (match o with
          | Some x => x :: norm_rows
          | None => norm_rows
          end)
  end.

(** ** The run *)

(** [old = pd.read_csv(OUTPUT_HISTORY)] when the file exists: the frame
    that pandas reads back, or its exception. *)
Definition read_history (history : option (list Enriched.t))
  : result (option (list Enriched.t)) :=
  match history with
  | Some stored => old ← read_csv stored; Ok (Some old)
  | None => Ok None
  end.

(** [combined]: [pd.concat([old, df], ignore_index=True)], the rows of
    the frame read back followed by those of [df], when the history
    exists; [df] otherwise. *)
Definition combine (old : option (list Enriched.t)) (df : list Enriched.t)
  : list Enriched.t :=
  match old with
  | Some old => old ++ df
  | None => df
  end.

(** The rows of one run, from the response on. *)
Definition batch (ts : str) (capacity_file : option (list cap_row))
    (body content_type : str) : result (list Enriched.t) :=
  rows ← extract_rows body content_type;
  enrich ts (load_capacity_lookup capacity_file) rows.

Definition run (e : env) (fs : files) : files * result unit :=
  match fetch_raw e fs with
  | (fs, Raise x) => (fs, Raise x)
  | (fs, Ok (body, content_type)) =>
      match batch (ts_utc e) (capacity_csv fs) body content_type with
      | Raise x => (fs, Raise x)
      | Ok df =>
          (* [df.to_csv(OUTPUT_LATEST)] comes first *)
          let fs := {| capacity_csv := capacity_csv fs;
                       raw_dumps := raw_dumps fs;
                       latest_csv := Some df;
                       history_csv := history_csv fs |} in
          match read_history (history_csv fs) with
          | Raise x => (fs, Raise x)
          | Ok old =>
              ({| capacity_csv := capacity_csv fs;
                  raw_dumps := raw_dumps fs;
                  latest_csv := latest_csv fs;
                  history_csv := Some (combine old df) |},
               Ok ())
          end
      end
  end.

End Run.

(** ** A platform for Basic Latin text

    An instance of [Platform] to run the script on concrete responses:
    a JSON decoder after [json.decoder] (strict mode), and the Unicode
    functions on the Basic Latin block, where NFKD is the identity and no
    character is combining. *)

Module Decoder.

(** [WHITESPACE] of [json.decoder]. *)
Fixpoint skip_ws (s : str) : str :=
  match s with
  | c :: s' =>
      if ((c =? 32) || (c =? 9) || (c =? 10) || (c =? 13))%N
      then skip_ws s' else s
  | [] => []
  end.

Definition hex_value (c : char) : option N :=
  (if (48 <=? c) && (c <=? 57) then Some (c - 48)
   else if (97 <=? c) && (c <=? 102) then Some (c - 87)
   else if (65 <=? c) && (c <=? 70) then Some (c - 55)
   else None)%N.

Definition hex4 (a b c d : char) : option N :=
  x ← hex_value a; y ← hex_value b; z ← hex_value c; w ← hex_value d;
  Some (((x * 16 + y) * 16 + z) * 16 + w)%N.

Definition simple_escape (c : char) : option char :=
  (if c =? 34 then Some 34
   else if c =? 92 then Some 92
   else if c =? 47 then Some 47
   else if c =? 98 then Some 8
   else if c =? 102 then Some 12
   else if c =? 110 then Some 10
   else if c =? 114 then Some 13
   else if c =? 116 then Some 9
   else None)%N.

Definition is_high (c : N) : bool := ((55296 <=? c) && (c <=? 56319))%N.
Definition is_low (c : N) : bool := ((56320 <=? c) && (c <=? 57343))%N.

(** The low half of a surrogate pair written as a second escape. *)
Definition low_escape (s : str) : option (N * str) :=
  match s with
  | 92%N :: 117%N :: a :: b :: c :: d :: rest =>
      match hex4 a b c d with
      | Some lo => if is_low lo then Some (lo, rest) else None
      | None => None
      end
  | _ => None
  end.

(** The characters of a string up to its closing quote. [n] bounds the
    number of characters read. *)
Fixpoint scan_string (n : nat) (acc : str) (s : str) : option (str * str) :=
  match n with
  | O => None
  | S n' =>
      match s with
      | [] => None
      | c :: rest =>
          if (c =? 34)%N then Some (reverse acc, rest)
          else if (c =? 92)%N then
            match rest with
            | [] => None
            | e :: rest' =>
                if (e =? 117)%N then
                  match rest' with
                  | a :: b :: c' :: d :: rest'' =>
                      match hex4 a b c' d with
                      | None => None
                      | Some cp =>
                          match (if is_high cp then low_escape rest'' else None) with
                          | Some (lo, rest3) =>
                              scan_string n'
                                ((65536 + (cp - 55296) * 1024 + (lo - 56320))%N :: acc)
                                rest3
                          | None => scan_string n' (cp :: acc) rest''
                          end
                      end
                  | _ => None
                  end
                else
                  match simple_escape e with
                  | Some x => scan_string n' (x :: acc) rest'
                  | None => None
                  end
            end
          else if (c <? 32)%N then None
          else scan_string n' (c :: acc) rest
      end
  end.

Definition is_digit (c : char) : bool := ((48 <=? c) && (c <=? 57))%N.

(** A maximal run of ASCII digits: its value, its length, the rest. *)
Fixpoint scan_digits (acc : Z) (len : nat) (s : str) : Z * nat * str :=
  match s with
  | c :: s' =>
      if is_digit c
      then scan_digits (10 * acc + Z.of_N (c - 48))%Z (S len) s'
      else (acc, len, s)
  | [] => (acc, len, [])
  end.

(** The integer part: [0] or a run that does not start with [0]. *)
Definition scan_int_part (s : str) : option (Z * nat * str) :=
  match s with
  | 48%N :: rest => Some (0%Z, 1, rest)
  | c :: _ => if is_digit c then Some (scan_digits 0 0 s) else None
  | [] => None
  end.

(** [.digits], when present. *)
Definition scan_frac (s : str) : option (Z * nat * str) :=
  match s with
  | 46%N :: rest =>
      match scan_digits 0 0 rest with
      | (_, O, _) => None
      | r => Some r
      end
  | _ => None
  end.

(** [e], an optional sign and digits, when present. *)
Definition scan_exp (s : str) : option (Z * str) :=
  match s with
  | c :: rest =>
      if ((c =? 101) || (c =? 69))%N then
        let '(neg, rest') :=
          match rest with
          | 45%N :: r => (true, r)
          | 43%N :: r => (false, r)
          | _ => (false, rest)
          end in
        match scan_digits 0 0 rest' with
        | (_, O, _) => None
        | (v, _, rest'') => Some (if neg then (- v)%Z else v, rest'')
        end
      else None
  | [] => None
  end.

(** [float(text)] for the decimal [digits * 10 ^ exp10]. *)
Definition float_of_decimal (s : bool) (digits exp10 : Z) : spec_float :=
  if (digits =? 0)%Z then S754_zero s
  else if (0 <=? exp10)%Z then nearest_ratio s (digits * 10 ^ exp10) 1
  else nearest_ratio s digits (10 ^ (- exp10)).

(** [sys.get_int_max_str_digits()] by default. *)
Definition max_str_digits : nat := 4300.

(** A number, after its optional minus sign [neg]: an [int] when it has
    no fraction and no exponent, a [float] otherwise; an [int] of more
    digits than the limit is a [ValueError]. *)
Definition scan_number (neg : bool) (s : str) : option (json * str) :=
  match scan_int_part s with
  | None => None
  | Some (ip, ilen, rest) =>
      let '(fd, flen, rest1, has_frac) :=
        match scan_frac rest with
        | Some (fd, flen, r) => (fd, flen, r, true)
        | None => (0%Z, O, rest, false)
        end in
      let '(ex, rest2, has_exp) :=
        match scan_exp rest1 with
        | Some (ex, r) => (ex, r, true)
        | None => (0%Z, rest1, false)
        end in
      if has_frac || has_exp
      then Some (JFloat (float_of_decimal neg (ip * 10 ^ Z.of_nat flen + fd)
                           (ex - Z.of_nat flen)), rest2)
      else if bool_decide (ilen ≤ max_str_digits)
      then Some (JInt (if neg then (- ip)%Z else ip), rest2)
      else None
  end.

(** [d[k] = v] on the member list. *)
Fixpoint set_member (k : str) (v : json) (members : list (str * json))
  : list (str * json) :=
  match members with
  | [] => [(k, v)]
  | (k', v') :: rest =>
      if bool_decide (k' = k) then (k, v) :: rest
      else (k', v') :: set_member k v rest
  end.

Definition literal (word : string) (v : json) (s : str) : option (json * str) :=
  if is_prefix (u word) s then Some (v, drop (length (u word)) s) else None.

(** [scan_once]: one value at the head of [s], and what follows it. *)
Fixpoint scan_once (fuel : nat) (s : str) : option (json * str) :=
  match fuel with
  | O => None
  | S fuel' =>
      match s with
      | [] => None
      | c :: rest =>
          if (c =? 34)%N then
            '(x, rest') ← scan_string (length rest) [] rest; Some (JStr x, rest')
          else if (c =? 123)%N then
            match skip_ws rest with
            | 125%N :: rest' => Some (JObj [], rest')
            | rest' => scan_members fuel' [] rest'
            end
          else if (c =? 91)%N then
            match skip_ws rest with
            | 93%N :: rest' => Some (JArr [], rest')
            | rest' => scan_items fuel' [] rest'
            end
          else if (c =? 45)%N then
            match literal "Infinity" (JFloat (S754_infinity true)) rest with
            | Some r => Some r
            | None => scan_number true rest
            end
          else if is_digit c then scan_number false s
          else if (c =? 110)%N then literal "null" JNull s
          else if (c =? 116)%N then literal "true" (JBool true) s
          else if (c =? 102)%N then literal "false" (JBool false) s
          else if (c =? 78)%N then literal "NaN" (JFloat S754_nan) s
          else if (c =? 73)%N then literal "Infinity" (JFloat (S754_infinity false)) s
          else None
      end
  end
with scan_items (fuel : nat) (acc : list json) (s : str) : option (json * str) :=
  match fuel with
  | O => None
  | S fuel' =>
      '(v, rest) ← scan_once fuel' s;
      match skip_ws rest with
      | 93%N :: rest' => Some (JArr (reverse (v :: acc)), rest')
      | 44%N :: rest' => scan_items fuel' (v :: acc) (skip_ws rest')
      | _ => None
      end
  end
with scan_members (fuel : nat) (acc : list (str * json)) (s : str)
  : option (json * str) :=
  match fuel with
  | O => None
  | S fuel' =>
      match s with
      | 34%N :: rest =>
          '(k, rest1) ← scan_string (length rest) [] rest;
          match skip_ws rest1 with
          | 58%N :: rest2 =>
              '(v, rest3) ← scan_once fuel' (skip_ws rest2);
              let acc' := set_member k v acc in
              match skip_ws rest3 with
              | 125%N :: rest4 => Some (JObj acc', rest4)
              | 44%N :: rest4 => scan_members fuel' acc' (skip_ws rest4)
              | _ => None
              end
          | _ => None
          end
      | _ => None
      end
  end.

(** [json.loads(s)] for a [str]: one value, white space around it and
    nothing else; [None] for [JSONDecodeError]. *)
Definition loads (s : str) : option json :=
  match scan_once (S (length s + length s)) (skip_ws s) with
  | Some (v, rest) =>
      match skip_ws rest with
      | [] => Some v
      | _ => None
      end
  | None => None
  end.

End Decoder.

Definition ascii_lower (c : char) : char :=
  (if (65 <=? c) && (c <=? 90) then c + 32 else c)%N.

Definition ascii_decimal (c : char) : option Z :=
  if Decoder.is_digit c then Some (Z.of_N (c - 48)) else None.

(** [STR_NA_VALUES]: the texts that [pd.read_csv] reads as a missing
    value in every column by default. *)
Definition na_values : list str :=
  [[]; u "#N/A"; u "#N/A N/A"; u "#NA"; u "-1.#IND"; u "-1.#QNAN";
   u "-NaN"; u "-nan"; u "1.#IND"; u "1.#QNAN"; u "<NA>"; u "N/A"; u "NA";
   u "NULL"; u "NaN"; u "n/a"; u "nan"; u "null"].

(** A text cell read and written back: a missing value is written as the
    empty text. *)
Definition reread_text (s : str) : str :=
  if bool_decide (s ∈ na_values) then [] else s.

Definition reread_cell (v : json) : json :=
  match v with
  | JStr s => JStr (reread_text s)
  | _ => v
  end.

Definition reread_row (x : Enriched.t) : Enriched.t := {|
  Enriched.timestamp_utc := reread_text (Enriched.timestamp_utc x);
  Enriched.carpark := reread_text (Enriched.carpark x);
  Enriched.available_spaces := reread_cell (Enriched.available_spaces x);
  Enriched.total_spaces := Enriched.total_spaces x;
  Enriched.occupancy := Enriched.occupancy x;
  Enriched.status := reread_text (Enriched.status x);
  Enriched.parking_option := reread_cell (Enriched.parking_option x);
  Enriched.source_last_updated := reread_text (Enriched.source_last_updated x);
|}.

(** [pd.read_csv] with its defaults on a file that [to_csv] wrote, for
    tables of text and number cells. The file of a frame without rows,
    as [pd.DataFrame([])] gives it, has no header line and is refused
    with EmptyDataError. A text cell that is an NA marker is read as a
    missing value; every other cell keeps its value. Type inference
    over a whole column (a text column that holds numerals only) and
    the way a number is written are not represented. *)
Definition pandas_read_csv (stored : list Enriched.t)
  : result (list Enriched.t) :=
  match stored with
  | [] => Raise EmptyDataError
  | _ => Ok (reread_row <$> stored)
  end.

(** The platform on Basic Latin text without markup: [select_cells]
    finds no table. *)
Definition basic_latin : Platform := {|
  nfkd := λ s, s;
  combining := λ _, false;
  lower := λ s, ascii_lower <$> s;
  decimal := ascii_decimal;
  int_max_str_digits := Decoder.max_str_digits;
  json_loads := Decoder.loads;
  select_cells := λ _, [];
  read_csv := pandas_read_csv;
|}.

(** A text written with ['] where it has a quotation mark. *)
Definition js (s : string) : str :=
  (λ c, if (c =? 39)%N then 34%N else c) <$> u s.

(** * Reference definitions and concrete inputs *)

(** ** Field rules of the JSON route *)

(** The field rule as the specification words it: the value of the first
    alternate that is present, [missing] when neither is. *)
Definition first_present (members : list (str * json)) (k1 k2 : str)
    (missing : json) : json :=
  match lookup_member k1 members with
  | Some v => v
  | None => default missing (lookup_member k2 members)
  end.

(** The value under [k] when it is present and truthy. *)
Definition truthy_member (members : list (str * json)) (k : str) : option json :=
  match lookup_member k members with
  | Some v => if truthy v then Some v else None
  | None => None
  end.

(** The value of the first alternate that is present with a truthy
    value, [missing] when there is none. *)
Definition first_truthy (members : list (str * json)) (k1 k2 : str)
    (missing : json) : json :=
  match truthy_member members k1 with
  | Some v => v
  | None => default missing (truthy_member members k2)
  end.

(** The value of the first alternate that is present and not null,
    null when there is none. *)
Definition first_set (members : list (str * json)) (k1 k2 : str) : json :=
  match lookup_member k1 members with
  | Some JNull | None => default JNull (lookup_member k2 members)
  | Some v => v
  end.

(** Every count that is present is null or truthy: no [0], [false] or
    empty value. *)
Definition counts_null_or_truthy (members : list (str * json)) : Prop :=
  ∀ k v, k ∈ [u "availableSpaces"; u "available"] →
         lookup_member k members = Some v → v = JNull ∨ truthy v = true.

Section Vocabulary.
Context {P : Platform}.

(** The strategies as the specification words them: a failure of the
    whole-body parse falls through to the embedded object, and a failure
    there to the embedded array. *)
Definition try_parse_json_spec (resp_text : str) : json :=
  let txt := strip resp_text in
  let whole :=
    if startswith txt 123 || startswith txt 91 then json_loads txt else None in
  match whole with
  | Some v => v
  | None =>
      match loads_between txt (find txt 123) (rfind txt 125) with
      | Some v => v
      | None => default JNull (loads_between txt (find txt 91) (rfind txt 93))
      end
  end.

(** The trimmed text opens with a bracket and decodes to [items]. *)
Definition json_array_text (body : str) (items : list json) : Prop :=
  startswith (strip body) 91 = true
  ∧ json_loads (strip body) = Some (JArr items).

(** The row has a name and a total that [int()] reads as a nonzero
    number. *)
Definition usable (row : cap_row) : bool :=
  match strip (default [] (cell_carpark row)),
        int_of_str (strip (str_of_cell (cell_total_spaces row))) with
  | _ :: _, Some t => negb (t =? 0)%Z
  | _, _ => false
  end.

End Vocabulary.

(** ** Shapes of values *)

(** A decoded JSON object. *)
Definition is_object (v : json) : Prop := ∃ members, v = JObj members.

(** A truthy value that is not a string: as a carpark name it has no
    [strip]. *)
Definition bad_name (v : json) : Prop :=
  truthy v = true ∧ ∀ s, v ≠ JStr s.

(** The key [k] of the object holds a list. *)
Definition holds_list (members : list (str * json)) (k : str) : Prop :=
  ∃ items, lookup_member k members = Some (JArr items).

(** Every character of [w] is white space. *)
Definition all_space (w : str) : Prop := Forall (λ c, isspace c = true) w.

(** ** Concrete inputs *)

(** The Basic Latin platform on a page whose table rows hold [cells]. *)
Definition table_page (cells : list (list str)) : Platform := {|
  nfkd := λ s, s;
  combining := λ _, false;
  lower := λ s, ascii_lower <$> s;
  decimal := ascii_decimal;
  int_max_str_digits := Decoder.max_str_digits;
  json_loads := Decoder.loads;
  select_cells := λ _, cells;
  read_csv := pandas_read_csv;
|}.

(** A JSON object followed by a trailer. *)
Definition trailer_body : str :=
  js "{'data': [{'name': 'Civic', 'available': 10}]} <!-- cached -->".

(** A JSON array with markup in one of its strings. *)
Definition array_body : str :=
  js "[{'name': 'Civic', 'available': 10, 'note': '<div class=divTable>'}]".

Definition array_items : list json :=
  [JObj [(u "name", JStr (u "Civic")); (u "available", JInt 10);
         (u "note", JStr (u "<div class=divTable>"))]].

(** A page with two table rows, and the cells that BeautifulSoup selects
    from it. *)
Definition page_body : str :=
  u "<div class=divTable><div class=divTableRow><div class=divTableCell>Victoria St</div><div class=divTableCell>Short Stay</div><div class=divTableCell>45</div></div><div class=divTableRow><div class=divTableCell>Albert Street</div><div class=divTableCell>Short Stay</div><div class=divTableCell>12</div></div></div>".

Definition page_cells : list (list str) :=
  [[u "Victoria St"; u "Short Stay"; u "45"];
   [u "Albert Street"; u "Short Stay"; u "12"]].

Definition old_row : Enriched.t := {|
  Enriched.timestamp_utc := u "2024-01-01 00:00:00";
  Enriched.carpark := u "Civic";
  Enriched.available_spaces := JInt 7;
  Enriched.total_spaces := None;
  Enriched.occupancy := None;
  Enriched.status := [];
  Enriched.parking_option := JStr [];
  Enriched.source_last_updated := [];
|}.

Definition some_files : files := {|
  capacity_csv :=
    Some [{| cell_carpark := Some (u "Victoria Street");
             cell_total_spaces := Some (u "120") |};
          {| cell_carpark := Some (u "Civic");
             cell_total_spaces := Some (u "100") |}];
  raw_dumps := ∅;
  latest_csv := None;
  history_csv := Some [old_row];
|}.



Definition env_of (r : http_reply) : env := {|
  ts_utc := u "2024-01-02 00:00:00";
  epoch := 1704153600;
  reply := r;
|}.

Definition page_env : env := env_of (Reply 200 page_body (Some (u "text/html"))).





(** * Properties *)

(** ** White space *)

Lemma lstrip_idem s : lstrip (lstrip s) = lstrip s.
Proof.
  induction s as [|c s IH]; simpl; [done|].
  destruct (isspace c) eqn:Hc; [done|]. simpl. by rewrite Hc.
Qed.

Lemma lstrip_head s c t : lstrip s = c :: t → isspace c = false.
Proof.
  induction s as [|a s IH]; simpl; [done|].
  destruct (isspace a) eqn:Ha; [done|]. congruence.
Qed.

Lemma lstrip_snoc l c : isspace c = false → lstrip (l ++ [c]) = lstrip l ++ [c].
Proof.
  intros Hc. induction l as [|a l IH]; simpl.
  - by rewrite Hc.
  - by destruct (isspace a).
Qed.

Lemma rstrip_cons c s : isspace c = false → rstrip (c :: s) = c :: rstrip s.
Proof.
  intros Hc. unfold rstrip.
  by rewrite reverse_cons, lstrip_snoc, reverse_app.
Qed.

Lemma rstrip_idem s : rstrip (rstrip s) = rstrip s.
Proof. unfold rstrip. by rewrite reverse_involutive, lstrip_idem. Qed.

Lemma lstrip_strip s : lstrip (strip s) = strip s.
Proof.
  unfold strip. destruct (lstrip s) as [|c t] eqn:Hs; [done|].
  pose proof (lstrip_head _ _ _ Hs) as Hc.
  rewrite rstrip_cons by done. simpl. by rewrite Hc.
Qed.

Lemma strip_idem s : strip (strip s) = strip s.
Proof.
  unfold strip at 1. rewrite lstrip_strip. unfold strip. apply rstrip_idem.
Qed.

(** ** Name normalisation *)

Section Normalisation.
Context {P : Platform}.

Lemma _norm_strip s : _norm (strip s) = _norm s.
Proof. unfold _norm. by rewrite strip_idem. Qed.

Lemma canonical_name_str s : canonical_name (JStr s) = Ok (canonical s).
Proof. by destruct s. Qed.



(** C3, as amended: two raw names with the same normalised key get the
    same canonical name when the key is in the ignore set or in the alias
    table; an unknown name passes through trimmed, so that the two
    canonical names then still share their normalised key, but need not
    be equal. *)
Theorem canonical_name_same_key (n1 n2 : str) :
  _norm n1 = _norm n2 →
  (_norm n1 ∈ IGNORE_CARPARKS ∨ is_Some (ALIASES !! _norm n1) →
   canonical_name (JStr n1) = canonical_name (JStr n2))
  ∧ (_norm n1 ∉ IGNORE_CARPARKS → ALIASES !! _norm n1 = None →
     canonical_name (JStr n1) = Ok (strip n1)
     ∧ canonical_name (JStr n2) = Ok (strip n2))
  ∧ _norm <$> canonical_name (JStr n1) = _norm <$> canonical_name (JStr n2).
Proof.
  intros Hk. rewrite !canonical_name_str. unfold canonical. rewrite <- Hk.
  destruct (bool_decide (_norm n1 ∈ IGNORE_CARPARKS)) eqn:Hi.
  - apply bool_decide_eq_true in Hi. split_and!; [done| |done].
    intros Hn. by destruct Hn.
  - apply bool_decide_eq_false in Hi.
    destruct (ALIASES !! _norm n1) as [a|] eqn:Ha; simpl.
    + split_and!; [done| |done]. intros _ Hnone. discriminate Hnone.
    + split_and!.
      * intros [Hin|[a Hsome]]; [done|discriminate Hsome].
      * done.
      * cbn. by rewrite !_norm_strip, Hk.
Qed.

End Normalisation.

(** Two spellings of an unknown carpark share their key and keep their
    own canonical names. *)
Lemma canonical_name_differs_on_unknown_names :
  @_norm basic_latin (u "Queen Street") = @_norm basic_latin (u "queen  street")
  ∧ @canonical_name basic_latin (JStr (u "Queen Street"))
    ≠ @canonical_name basic_latin (JStr (u "queen  street")).
Proof. split; [by vm_compute|]. vm_compute. intros H. discriminate H. Qed.

(** The spellings of Victoria Street share their alias. *)
Lemma canonical_name_same_key_witness :
  @canonical_name basic_latin (JStr (u "Victoria St"))
  = @canonical_name basic_latin (JStr (u "VICTORIA  ST")).
Proof.
  apply (@canonical_name_same_key basic_latin (u "Victoria St") (u "VICTORIA  ST")).
  - vm_compute. reflexivity.
  - right. vm_compute. eexists. reflexivity.
Defined.

(** ** Records of the JSON route *)

Lemma py_or_chain members k1 k2 missing :
  py_or (dict_get members k1) (py_or (dict_get members k2) missing)
  = first_truthy members k1 k2 missing.
Proof.
  unfold py_or, dict_get, first_truthy, truthy_member.
  destruct (lookup_member k1 members) as [v1|]; simpl;
    [destruct (truthy v1); [done|]|];
    (destruct (lookup_member k2 members) as [v2|]; simpl;
     [by destruct (truthy v2) | done]).
Qed.

Lemma first_truthy_set members k1 k2 :
  (∀ k v, k ∈ [k1; k2] → lookup_member k members = Some v →
          v = JNull ∨ truthy v = true) →
  first_truthy members k1 k2 JNull = first_set members k1 k2.
Proof.
  intros H. unfold first_truthy, first_set, truthy_member.
  assert (H2 : ∀ v, lookup_member k2 members = Some v →
                    default JNull (if truthy v then Some v else None) = v).
  { intros v Hv. destruct (H k2 v) as [->| ->]; [set_solver|done|done|done]. }
  destruct (lookup_member k1 members) as [v1|] eqn:H1.
  - destruct (H k1 v1) as [->|Ht]; [set_solver|done| |].
    + simpl. destruct (lookup_member k2 members) as [v2|]; [by apply H2|done].
    + rewrite Ht. by destruct v1.
  - destruct (lookup_member k2 members) as [v2|]; [by apply H2|done].
Qed.

(** C2, as amended: extracting a JSON record object never raises; the
    carpark name is the value of the first of [carParkName], [name] that
    is present with a truthy value (not null, not empty), the parking
    option the first such of [category], [parkingOption], and each is the
    empty string when there is none; when no count that is present is a
    falsy value other than null, the available-space count is the value
    of the first of [availableSpaces], [available] that is present and
    not null, and null when there is none. *)
Theorem record_of_fields (members : list (str * json)) :
  ∃ r, record_of (JObj members) = Ok r
  ∧ Row.carpark r = first_truthy members (u "carParkName") (u "name") (JStr [])
  ∧ Row.parking_option r
    = first_truthy members (u "category") (u "parkingOption") (JStr [])
  ∧ (counts_null_or_truthy members →
     Row.available_spaces r
     = first_set members (u "availableSpaces") (u "available")).
Proof.
  eexists. split; [reflexivity|]. cbn [Row.carpark Row.parking_option
    Row.available_spaces]. split_and!.
  - apply py_or_chain.
  - apply py_or_chain.
  - intros H. rewrite py_or_chain. by apply first_truthy_set.
Qed.

(** The claim fails where the first alternate is present and empty: the
    name comes from the second one. *)
Lemma record_of_skips_empty_name :
  Row.carpark <$> record_of
    (JObj [(u "carParkName", JStr []); (u "name", JStr (u "Civic"))])
  ≠ Ok (first_present
          [(u "carParkName", JStr []); (u "name", JStr (u "Civic"))]
          (u "carParkName") (u "name") (JStr [])).
Proof. vm_compute. intros H. discriminate H. Qed.

(** A record with the second alternates only. *)
Lemma record_of_fields_witness :
  ∃ r, record_of (JObj [(u "name", JStr (u "Civic")); (u "available", JInt 10)])
       = Ok r
  ∧ Row.carpark r = JStr (u "Civic")
  ∧ Row.parking_option r = JStr []
  ∧ Row.available_spaces r = JInt 10.
Proof.
  destruct (record_of_fields
              [(u "name", JStr (u "Civic")); (u "available", JInt 10)])
    as (r & Hr & Hc & Ho & Ha).
  exists r. split_and!; [done|by rewrite Hc|by rewrite Ho|].
  rewrite Ha; [done|].
  intros k v Hk Hv. apply list_elem_of_In in Hk.
  destruct Hk as [<-|[<-|[]]]; vm_compute in Hv; inversion Hv; by right.
Defined.

Lemma collect_cons_nonempty {A B} (f : A → result B) x xs rows :
  collect f (x :: xs) = Ok rows → rows ≠ [].
Proof.
  simpl. destruct (f x); [|done]. simpl.
  destruct (collect f xs); [|done]. simpl. by intros [= <-].
Qed.

(** ** Extraction *)

Section Extraction.
Context {P : Platform}.

(** When the trimmed text opens with a brace or a bracket, the whole-body
    parse decides alone. *)
Lemma try_parse_json_whole body :
  startswith (strip body) 123 || startswith (strip body) 91 = true →
  try_parse_json body = default JNull (json_loads (strip body)).
Proof. intros H. unfold try_parse_json. rewrite H. by destruct json_loads. Qed.

(** Otherwise the two embedded strategies are tried in order. *)
Lemma try_parse_json_embedded body :
  startswith (strip body) 123 || startswith (strip body) 91 = false →
  try_parse_json body = try_parse_json_spec body.
Proof.
  intros H. unfold try_parse_json, try_parse_json_spec. rewrite H.
  destruct loads_between; [done|]. by destruct loads_between.
Qed.

Lemma extract_unfold body content_type :
  extract body content_type =
  (rows ← rows_of_data (try_parse_json body);
   match rows with
   | [] => Ok (ViaHtml, parse_html_table body)
   | _ => Ok (ViaJson, rows)
   end).
Proof.
  unfold extract.
  destruct (contains _ _); [|done]. by destruct (try_parse_json body).
Qed.

(** C10: the rows depend on the body only; any two declared content
    types give the same extraction. *)
Theorem extract_ignores_content_type (body ct1 ct2 : str) :
  extract_rows body ct1 = extract_rows body ct2
  ∧ extract body ct1 = extract body ct2.
Proof. unfold extract_rows. by rewrite !extract_unfold. Qed.

(** C6, as amended: a body that is a JSON array with at least one element
    never reaches the HTML extractor; its rows are those of the array's
    elements (or the exception that an element raises). The empty array
    yields no row and falls back to the HTML extractor. *)
Theorem nonempty_json_array_skips_html (body ct : str) (items : list json) :
  json_array_text body items →
  items ≠ [] →
  extract body ct = (λ rows, (ViaJson, rows)) <$> collect record_of items.
Proof.
  intros [Hs Hl] Hne. rewrite extract_unfold, try_parse_json_whole.
  2: { rewrite Hs. apply orb_true_r. }
  rewrite Hl. simpl. destruct items as [|item items]; [done|].
  destruct (collect record_of (item :: items)) as [rows|e] eqn:Hc; [|done].
  apply collect_cons_nonempty in Hc. by destruct rows.
Qed.

End Extraction.

(** C1: [try_parse_json] does not fall through when the whole-body parse
    fails. On a JSON object followed by a trailer the trimmed body opens
    with a brace and the whole-body parse fails; the text from the first
    brace to the last one decodes to the object, as the strategies worded
    in order give it, but the function has returned [None] already. *)
Theorem try_parse_json_stops_after_whole_body :
  startswith (strip trailer_body) 123 = true
  ∧ @json_loads basic_latin (strip trailer_body) = None
  ∧ @loads_between basic_latin (strip trailer_body)
      (find (strip trailer_body) 123) (rfind (strip trailer_body) 125)
    = Some (JObj [(u "data",
                   JArr [JObj [(u "name", JStr (u "Civic"));
                               (u "available", JInt 10)]])])
  ∧ @try_parse_json_spec basic_latin trailer_body
    = JObj [(u "data",
             JArr [JObj [(u "name", JStr (u "Civic"));
                         (u "available", JInt 10)]])]
  ∧ @try_parse_json basic_latin trailer_body = JNull.
Proof. by vm_compute. Qed.

(** The empty array is a valid JSON array and goes to the HTML
    extractor. *)
Lemma empty_json_array_reaches_html :
  @json_array_text basic_latin (u "[]") []
  ∧ fst <$> @extract basic_latin (u "[]") (u "application/json") = Ok ViaHtml.
Proof. by vm_compute. Qed.

(** An array of one record whose note holds markup. *)
Lemma nonempty_json_array_skips_html_witness :
  @extract basic_latin array_body (u "text/html")
  = (λ rows, (ViaJson, rows)) <$> collect record_of array_items.
Proof.
  apply (@nonempty_json_array_skips_html basic_latin array_body (u "text/html")
           array_items).
  - split; vm_compute; reflexivity.
  - discriminate.
Defined.

Section Pipeline.
Context {P : Platform}.

(** ** Enrichment *)



(** ** The run *)

(** The run from the point where the batch is built: the latest
    snapshot is written, then the history is read back and, when that
    succeeds, rewritten. *)
Lemma run_batch e fs status_code text content_type df :
  reply e = Reply status_code text content_type →
  raise_for_status status_code = Ok () →
  batch (ts_utc e) (capacity_csv fs) text (default [] content_type) = Ok df →
  run e fs =
    match read_history (history_csv fs) with
    | Raise x =>
        ({| capacity_csv := capacity_csv fs;
            raw_dumps := <[epoch e := text]> (raw_dumps fs);
            latest_csv := Some df;
            history_csv := history_csv fs |}, Raise x)
    | Ok old =>
        ({| capacity_csv := capacity_csv fs;
            raw_dumps := <[epoch e := text]> (raw_dumps fs);
            latest_csv := Some df;
            history_csv := Some (combine old df) |}, Ok ())
    end.
Proof.
  intros Hr Hc Hb. unfold run, fetch_raw. rewrite Hr, Hc. cbn. rewrite Hb. cbn.
  by destruct (read_history (history_csv fs)).
Qed.



(** A run whose response is accepted, whose batch is built and whose
    history, if any, is read back ends normally. *)
Lemma run_ok e fs status_code text content_type df old :
  reply e = Reply status_code text content_type →
  raise_for_status status_code = Ok () →
  batch (ts_utc e) (capacity_csv fs) text (default [] content_type) = Ok df →
  read_history (history_csv fs) = Ok old →
  snd (run e fs) = Ok ().
Proof.
  intros Hr Hc Hb Hh. by rewrite (run_batch _ _ _ _ _ _ Hr Hc Hb), Hh.
Qed.




(** ** Occupancy *)



(** ** Capacity lookup *)

Lemma load_row_unusable capacity row :
  usable row = false → load_row capacity row = capacity.
Proof.
  unfold usable, load_row.
  destruct (strip _) as [|c name]; [done|].
  destruct (int_of_str _) as [t|]; [|done].
  by destruct (t =? 0)%Z.
Qed.

Lemma load_row_lookup capacity row name t :
  load_row capacity row !! name = Some t →
  capacity !! name = Some t
  ∨ (usable row = true
     ∧ strip (default [] (cell_carpark row)) = name
     ∧ int_of_str (strip (str_of_cell (cell_total_spaces row))) = Some t).
Proof.
  unfold usable, load_row.
  destruct (strip (default [] (cell_carpark row))) as [|c rest] eqn:Hn; [by left|].
  destruct (int_of_str _) as [t'|]; [|by left].
  destruct (t' =? 0)%Z; [by left|].
  destruct (decide (c :: rest = name)) as [<-|Hne].
  - rewrite lookup_insert_eq. intros [= <-]. by right.
  - rewrite lookup_insert_ne by done. by left.
Qed.

Lemma foldl_load_row_lookup rows capacity name t :
  foldl load_row capacity rows !! name = Some t →
  capacity !! name = Some t
  ∨ ∃ row, row ∈ rows ∧ usable row = true
           ∧ strip (default [] (cell_carpark row)) = name
           ∧ int_of_str (strip (str_of_cell (cell_total_spaces row))) = Some t.
Proof.
  revert capacity. induction rows as [|row rows IH]; intros capacity; simpl.
  - by left.
  - intros H. apply IH in H as [H|(row' & Hin & H)].
    + apply load_row_lookup in H as [H|H]; [by left|].
      right. exists row. split; [apply list_elem_of_here|done].
    + right. exists row'. split; [by apply list_elem_of_further|done].
Qed.

Lemma foldl_load_row_filter rows capacity :
  foldl load_row capacity rows = foldl load_row capacity (filter usable rows).
Proof.
  revert capacity. induction rows as [|row rows IH]; intros capacity; [done|].
  simpl. destruct (usable row) eqn:Hu.
  - rewrite filter_cons_True by (by rewrite Hu). simpl. apply IH.
  - rewrite filter_cons_False by (rewrite Hu; simpl; tauto).
    rewrite load_row_unusable by done. apply IH.
Qed.

Lemma usable_name_total row :
  usable row = true →
  strip (default [] (cell_carpark row)) ≠ []
  ∧ ∃ t, int_of_str (strip (str_of_cell (cell_total_spaces row))) = Some t
         ∧ t ≠ 0%Z.
Proof.
  unfold usable. destruct (strip _) as [|c name]; [done|].
  destruct (int_of_str _) as [t|]; [|done].
  intros Ht. split; [done|]. exists t. split; [done|].
  apply Z.eqb_neq. by destruct (t =? 0)%Z.
Qed.

(** C8, as amended: loading the capacity table never raises. A missing
    file gives the empty mapping. A row whose name is missing or empty
    after trimming, whose total does not coerce to an integer, or whose
    total is zero, is left out: the mapping is the one of the remaining
    rows. Every entry maps a non-empty name to a nonzero integer, which
    may be negative, and comes from such a row. *)
Theorem load_capacity_lookup_entries (file : option (list cap_row)) :
  (file = None → load_capacity_lookup file = ∅)
  ∧ (∀ rows, file = Some rows →
       load_capacity_lookup file
       = load_capacity_lookup (Some (filter usable rows)))
  ∧ (∀ name t,
       load_capacity_lookup file !! name = Some t →
       name ≠ [] ∧ t ≠ 0%Z
       ∧ ∃ rows row,
           file = Some rows ∧ row ∈ rows
           ∧ strip (default [] (cell_carpark row)) = name
           ∧ int_of_str (strip (str_of_cell (cell_total_spaces row))) = Some t).
Proof.
  split_and!.
  - by intros ->.
  - intros rows ->. apply foldl_load_row_filter.
  - intros name t. destruct file as [rows|]; simpl; [|by rewrite lookup_empty].
    intros H. apply foldl_load_row_lookup in H as [H|(row & Hin & Hu & Hn & Ht)].
    { by rewrite lookup_empty in H. }
    destruct (usable_name_total row Hu) as (Hne & t' & Ht' & Hnz).
    assert (t' = t) as -> by congruence.
    split_and!; [congruence|done|]. by exists rows, row.
Qed.

End Pipeline.

(** ** The properties on concrete runs *)

(** The page run keeps Victoria Street, with its occupancy, and drops
    Albert Street. *)
Example page_run :
  latest_csv (fst (@run (table_page page_cells) page_env some_files))
  = Some [{| Enriched.timestamp_utc := u "2024-01-02 00:00:00";
             Enriched.carpark := u "Victoria Street";
             Enriched.available_spaces := JInt 45;
             Enriched.total_spaces := Some 120%Z;
             Enriched.occupancy := Some (Decoder.float_of_decimal false 625 (-3));
             Enriched.status := [];
             Enriched.parking_option := JStr (u "Short Stay");
             Enriched.source_last_updated := [] |}].
Proof. by vm_compute. Qed.







(** A negative total is kept. *)
Lemma load_capacity_lookup_keeps_negative_total :
  ∃ t, @load_capacity_lookup basic_latin
         (Some [{| cell_carpark := Some (u "Civic");
                   cell_total_spaces := Some (u "-5") |}]) !! u "Civic"
       = Some t
  ∧ ¬ (0 < t)%Z.
Proof. exists (-5)%Z. split; [by vm_compute|lia]. Qed.


(** The entry of Civic in the capacity table of [some_files]. *)
Lemma load_capacity_lookup_entries_witness :
  u "Civic" ≠ [] ∧ 100%Z ≠ 0%Z
  ∧ ∃ rows row,
      capacity_csv some_files = Some rows ∧ row ∈ rows
      ∧ strip (default [] (cell_carpark row)) = u "Civic"
      ∧ @int_of_str basic_latin (strip (str_of_cell (cell_total_spaces row)))
        = Some 100%Z.
Proof.
  apply (proj2 (proj2 (@load_capacity_lookup_entries basic_latin
                         (capacity_csv some_files)))).
  vm_compute. reflexivity.
Defined.

(** * Further properties *)

(** ** White space in names *)

Lemma split_from_lstrip s : split_from [] (lstrip s) = split_from [] s.
Proof.
  induction s as [|c s IH]; simpl; [done|].
  destruct (isspace c) eqn:Hc; [done|]. simpl. by rewrite Hc.
Qed.

Lemma split_from_spaces w cur : all_space w → split_from cur w = split_from cur [].
Proof.
  intros Hw. revert cur. induction Hw as [|c w Hc _ IH]; intros cur; [done|].
  simpl. rewrite Hc. destruct cur; rewrite (IH []); done.
Qed.

Lemma split_from_app_spaces s w cur :
  all_space w → split_from cur (s ++ w) = split_from cur s.
Proof.
  intros Hw. revert cur. induction s as [|c s IH]; intros cur.
  - by apply split_from_spaces.
  - simpl. destruct (isspace c); [|apply IH]. destruct cur; by rewrite IH.
Qed.

Lemma lstrip_decomp t : ∃ w, all_space w ∧ t = w ++ lstrip t.
Proof.
  induction t as [|c t (w & Hw & Ht)]; simpl.
  - exists []. by split; [constructor|].
  - destruct (isspace c) eqn:Hc.
    + exists (c :: w). split; [by constructor|]. simpl. by rewrite <- Ht.
    + exists []. by split; [constructor|].
Qed.

Lemma rstrip_decomp s : ∃ w, all_space w ∧ s = rstrip s ++ w.
Proof.
  destruct (lstrip_decomp (reverse s)) as (w & Hw & Hs).
  exists (reverse w). split.
  - unfold all_space in *. rewrite Forall_forall in *.
    intros c Hc. apply Hw. by apply elem_of_reverse.
  - unfold rstrip. rewrite <- reverse_app, <- Hs. by rewrite reverse_involutive.
Qed.

Lemma split_rstrip s : split (rstrip s) = split s.
Proof.
  destruct (rstrip_decomp s) as (w & Hw & Hs). unfold split.
  rewrite Hs at 2. by rewrite split_from_app_spaces.
Qed.

Lemma split_strip s : split (strip s) = split s.
Proof. unfold strip. rewrite split_rstrip. apply split_from_lstrip. Qed.

Section NamesFurther.
Context {P : Platform}.

(** X1: the normalised key of a name depends on its words only: two
    strings that [split()] cuts into the same words have the same key,
    whatever white space separates or surrounds the words. *)
Theorem _norm_depends_on_words (s1 s2 : str) :
  split s1 = split s2 → _norm s1 = _norm s2.
Proof.
  intros H. unfold _norm. by rewrite !split_strip, H.
Qed.

Lemma or_empty_str s : or_empty (JStr s) = Ok s.
Proof. by destruct s. Qed.

(** X2: canonical names are stable on a platform where each display
    value of the alias table is its own canonical name and the sentinel
    is neither ignored nor aliased: canonicalising a canonical name
    changes nothing. *)
Theorem canonical_idempotent (s : str) :
  (∀ k v, ALIASES !! k = Some v → canonical v = v) →
  canonical IGNORE = IGNORE →
  canonical (canonical s) = canonical s.
Proof.
  intros Halias Hsentinel. unfold canonical at 2 3.
  case_bool_decide as Hi; [done|].
  destruct (ALIASES !! _norm s) as [v|] eqn:Hv; simpl; [by eapply Halias|].
  unfold canonical. rewrite _norm_strip, Hv, strip_idem.
  by rewrite bool_decide_eq_false_2.
Qed.

(** The entry found under the key of Downtown normalises to that key,
    whichever later entry of the table shares the key. *)
Lemma aliases_downtown :
  ∃ v, ALIASES !! _norm (u "Downtown") = Some v
       ∧ _norm v = _norm (u "Downtown").
Proof.
  unfold ALIASES. rewrite lookup_insert.
  destruct (decide (_norm (u "Toka Puia") = _norm (u "Downtown"))) as [E|_];
    [by eexists|].
  rewrite lookup_insert.
  destruct (decide (_norm (u "Ronwood") = _norm (u "Downtown"))) as [E|_];
    [by eexists|].
  rewrite lookup_insert_eq. by eexists.
Qed.

Lemma canonical_suppressed raw :
  _norm raw ∈ IGNORE_CARPARKS ∨ _norm raw = _norm (u "Downtown") →
  canonical raw = IGNORE ∨ _norm (canonical raw) ∈ STOP_COLLECTING.
Proof.
  intros Hk. unfold canonical. case_bool_decide as Hi; [by left|].
  destruct Hk as [Hk|Hk]; [done|]. rewrite Hk.
  destruct aliases_downtown as (v & -> & Hv). right. simpl.
  rewrite Hv. unfold STOP_COLLECTING. set_solver.
Qed.

Lemma enrich_row_dropped ts capacity r raw :
  or_empty (Row.carpark r) = Ok raw →
  canonical raw = IGNORE ∨ _norm (canonical raw) ∈ STOP_COLLECTING →
  enrich_row ts capacity r = Ok None.
Proof.
  intros Hr Hc. unfold enrich_row, canonical_name. rewrite Hr.
  change (Ok raw ≫= (λ s, Ok (canonical s))) with (Ok (canonical raw)).
  generalize dependent (canonical raw). intros c Hc.
  change (Ok c ≫= ?f) with (f c). cbv beta.
  case_bool_decide; [done|]. case_bool_decide; [done|]. by destruct Hc.
Qed.

(** X3: a row whose name normalises into the ignore set, or to the key
    of Downtown (the stop-collecting set), is dropped by the enrichment
    loop, on every platform. *)
Theorem enrich_row_drops_suppressed ts capacity (r : Row.t) (raw : str) :
  Row.carpark r = JStr raw →
  _norm raw ∈ IGNORE_CARPARKS ∨ _norm raw = _norm (u "Downtown") →
  enrich_row ts capacity r = Ok None.
Proof.
  intros Hr Hk. apply enrich_row_dropped with raw.
  - rewrite Hr. apply or_empty_str.
  - by apply canonical_suppressed.
Qed.

End NamesFurther.

(** ** Enrichment and the run *)

Section PipelineFurther.
Context {P : Platform}.

Lemma or_empty_raise v e :
  or_empty v = Raise e ↔ e = AttributeError ∧ bad_name v.
Proof.
  unfold or_empty, bad_name. split.
  - destruct (truthy v) eqn:Hv; [|done].
    destruct v; try done; intros [= <-]; by split.
  - intros (-> & Hv & Hs). rewrite Hv. destruct v; try done. by destruct (Hs s).
Qed.

Lemma enrich_row_raise ts capacity r e :
  enrich_row ts capacity r = Raise e ↔ or_empty (Row.carpark r) = Raise e.
Proof.
  unfold enrich_row, canonical_name.
  destruct (or_empty (Row.carpark r)) as [raw|e']; [|cbn; split; intros [= ->]; reflexivity].
  change (Ok raw ≫= (λ s, Ok (canonical s))) with (Ok (canonical raw)).
  generalize (canonical raw). intros c.
  change (Ok c ≫= ?f) with (f c). cbv beta.
  by repeat case_bool_decide.
Qed.

(** X4: the enrichment loop raises exactly when some row has a truthy
    name that is not a string, and the exception is then AttributeError:
    one such row aborts the whole batch. *)
Theorem enrich_raises_iff ts capacity (rows : list Row.t) (e : exn) :
  enrich ts capacity rows = Raise e ↔
  e = AttributeError ∧ ∃ r, r ∈ rows ∧ bad_name (Row.carpark r).
Proof.
  induction rows as [|r rows IH]; simpl.
  - split; [done|]. intros (_ & r & Hr & _). by apply elem_of_nil in Hr.
  - destruct (enrich_row ts capacity r) as [o|e'] eqn:Hr.
    + assert (Hgood : ¬ bad_name (Row.carpark r)).
      { intros Hb.
        assert (Hraise : enrich_row ts capacity r = Raise AttributeError)
          by (apply enrich_row_raise, or_empty_raise; done).
        congruence. }
      change (Ok o ≫= ?f) with (f o). cbv beta.
      destruct (enrich ts capacity rows) as [rest|e'']; simpl.
      * split; [done|]. intros (-> & r' & Hin & Hb).
        apply elem_of_cons in Hin as [->|Hin]; [done|].
        assert (Hx : Ok rest = Raise AttributeError) by (apply IH; eauto).
        discriminate Hx.
      * split.
        -- intros [= ->]. destruct (proj1 IH eq_refl) as (-> & r' & Hin & Hb).
           split; [done|]. exists r'. split; [by apply list_elem_of_further|done].
        -- intros (-> & r' & Hin & Hb).
           apply elem_of_cons in Hin as [->|Hin]; [done|].
           apply IH. eauto.
    + apply enrich_row_raise, or_empty_raise in Hr as (-> & Hb). simpl. split.
      * intros [= <-]. split; [done|]. exists r. split; [apply list_elem_of_here|done].
      * by intros (-> & _).
Qed.




(** X7: whatever its outcome, a run never changes the capacity table
    and touches no raw dump except the one of its own time stamp; when
    the response is accepted that dump holds the body, also when the
    rest of the run raises. *)
Theorem run_frame (e : env) (fs : files) :
  capacity_csv (fst (run e fs)) = capacity_csv fs
  ∧ (∀ k, k ≠ epoch e → raw_dumps (fst (run e fs)) !! k = raw_dumps fs !! k)
  ∧ (∀ status_code text content_type,
       reply e = Reply status_code text content_type →
       raise_for_status status_code = Ok () →
       raw_dumps (fst (run e fs)) !! epoch e = Some text).
Proof.
  unfold run, fetch_raw. destruct (reply e) as [x'|code text ct].
  - by split_and!.
  - destruct (raise_for_status code) as [[]|x'] eqn:Hc.
    + cbn. destruct (batch _ _ _ _) as [df|x'']; simpl;
        [destruct (read_history (history_csv fs)); simpl|].
      all: split_and!;
        [done
        |intros k Hk; by rewrite lookup_insert_ne
        |intros ? ? ? [= _ <- _] _; by rewrite lookup_insert_eq].
    + split_and!; [done..|]. intros ? ? ? [= <- _ _] Hok. congruence.
Qed.

End PipelineFurther.


(** ** Extraction, further *)

Lemma elem_of_lstrip c s : c ∈ lstrip s → c ∈ s.
Proof.
  induction s as [|a s IH]; simpl; [done|].
  destruct (isspace a); [|done]. intros H. by apply list_elem_of_further, IH.
Qed.

Lemma elem_of_strip c s : c ∈ strip s → c ∈ s.
Proof.
  unfold strip, rstrip. intros H.
  rewrite elem_of_reverse in H. apply elem_of_lstrip in H.
  rewrite elem_of_reverse in H. by apply elem_of_lstrip.
Qed.

Lemma find_from_absent s c k : c ∉ s → find_from k s c = (-1)%Z.
Proof.
  revert k. induction s as [|a s IH]; intros k; simpl; [done|].
  intros [Hne Hs]%not_elem_of_cons.
  destruct (a =? c)%N eqn:E; [by apply N.eqb_eq in E|]. by apply IH.
Qed.

Lemma startswith_absent s c : c ∉ s → startswith s c = false.
Proof.
  destruct s as [|a s]; simpl; [done|].
  intros [Hne _]%not_elem_of_cons. apply N.eqb_neq. congruence.
Qed.

Lemma find_from_found s c k i :
  find_from k s c = i → (0 ≤ k)%Z → i ≠ (-1)%Z →
  ∃ pre rest, s = pre ++ c :: rest ∧ (c ∉ pre) ∧ i = (k + Z.of_nat (length pre))%Z.
Proof.
  revert k. induction s as [|a s IH]; intros k; simpl.
  - by intros <- _ H.
  - destruct (a =? c)%N eqn:E.
    + apply N.eqb_eq in E as ->. intros <- _ _. exists [], s.
      split_and!; [done|apply not_elem_of_nil|simpl; lia].
    + intros H Hk Hi. apply IH in H as (pre & rest & -> & Hpre & ->); [|lia|done].
      exists (a :: pre), rest. split_and!; [done| |simpl length; lia].
      apply not_elem_of_cons. split; [|done].
      intros ->. by rewrite N.eqb_refl in E.
Qed.

Lemma rfind_from_spec s c k last :
  (last < k)%Z →
  (rfind_from k last s c = last ∧ (c ∉ s))
  ∨ ∃ pre post, s = pre ++ c :: post ∧ (c ∉ post)
                ∧ rfind_from k last s c = (k + Z.of_nat (length pre))%Z.
Proof.
  revert k last. induction s as [|a s IH]; intros k last Hk; simpl.
  - left. split; [done|apply not_elem_of_nil].
  - destruct (a =? c)%N eqn:E.
    + apply N.eqb_eq in E as ->.
      destruct (IH (k + 1)%Z k) as [[-> Hs]|(pre & post & -> & Hpost & ->)]; [lia| |].
      * right. exists [], s. split_and!; [done..|simpl; lia].
      * right. exists (c :: pre), post. split_and!; [done..|simpl length; lia].
    + destruct (IH (k + 1)%Z last) as [[-> Hs]|(pre & post & -> & Hpost & ->)]; [lia| |].
      * left. split; [done|]. apply not_elem_of_cons. split; [|done].
        intros ->. by rewrite N.eqb_refl in E.
      * right. exists (a :: pre), post. split_and!; [done..|simpl length; lia].
Qed.

Lemma slice_between (txt : str) (a b : char) :
  find txt a ≠ (-1)%Z →
  (find txt a < rfind txt b)%Z →
  ∃ pre mid post,
    txt = pre ++ a :: mid ++ b :: post
    ∧ (a ∉ pre) ∧ (b ∉ post)
    ∧ slice txt (find txt a) (rfind txt b + 1) = a :: mid ++ [b].
Proof.
  unfold find, rfind. intros Hfound Hlt.
  destruct (find_from_found txt a 0 _ eq_refl) as (pre & rest & Htxt & Hpre & Hi);
    [lia|done|].
  destruct (rfind_from_spec txt b 0 (-1)) as [[Hj _]|(pre' & post & Htxt' & Hpost & Hj)];
    [lia|lia|].
  rewrite Hi, Hj in *. clear Hi Hj Hfound.
  assert (Hlen : length pre < length pre') by lia.
  rewrite Htxt in Htxt'.
  apply List.app_eq_app in Htxt' as [l [[-> Hl]|[-> Hl]]].
  { rewrite length_app in Hlen. lia. }
  destruct l as [|a' mid]; [rewrite length_app in Hlen; simpl in Hlen; lia|].
  simpl in Hl. injection Hl as <- ->.
  exists pre, mid, post. split_and!; [by rewrite Htxt|done..|].
  unfold slice. rewrite Htxt.
  replace (Z.to_nat (0 + Z.of_nat (length pre))) with (length pre) by lia.
  rewrite drop_app_length, length_app. simpl length.
  replace (Z.to_nat (0 + Z.of_nat (length pre + S (length mid)) + 1
                     - (0 + Z.of_nat (length pre))))
    with (S (length mid + 1)) by lia.
  simpl. f_equal. by rewrite take_app_add.
Qed.

(** The digits of a literal have a value that is not negative when no
    digit has a negative value. *)
Section Digits.
Context {P : Platform}.
Hypothesis digits_natural : ∀ c d, decimal c = Some d → (0 ≤ d)%Z.

Lemma read_digits_natural s acc count after n k :
  (0 ≤ acc)%Z → read_digits acc count after s = Some (n, k) → (0 ≤ n)%Z.
Proof.
  revert acc count after. induction s as [|c s IH]; intros acc count after Hacc; simpl.
  - destruct after; [|done]. by intros [= <- _].
  - destruct (c =? 95)%N.
    + destruct after; [|done]. by apply IH.
    + destruct (decimal c) as [d|] eqn:Hd; [|done].
      apply IH. apply digits_natural in Hd. lia.
Qed.

Lemma read_unsigned_natural s n : read_unsigned s = Some n → (0 ≤ n)%Z.
Proof.
  unfold read_unsigned.
  destruct (read_digits 0 0 false s) as [[n' k]|] eqn:H; [|done].
  destruct (within_digit_limit k); [|done]. intros [= <-].
  by eapply read_digits_natural in H.
Qed.

End Digits.

Lemma elem_of_int_lstrip c s : c ∈ int_lstrip s → c ∈ s.
Proof.
  induction s as [|a s IH]; simpl; [done|].
  destruct (int_isspace a); [|done]. intros H. by apply list_elem_of_further, IH.
Qed.

Lemma elem_of_int_strip c s : c ∈ int_strip s → c ∈ s.
Proof.
  unfold int_strip. intros H.
  rewrite elem_of_reverse in H. apply elem_of_int_lstrip in H.
  rewrite elem_of_reverse in H. by apply elem_of_int_lstrip.
Qed.

Section ExtractionFurther.
Context {P : Platform}.

(** X8: a body with no brace and no bracket is never handed to
    [json.loads]: [try_parse_json] returns [None] and the rows are those
    of the HTML extractor, whatever the content type. *)
Theorem extract_without_brackets (body content_type : str) :
  123%N ∉ body → 91%N ∉ body →
  try_parse_json body = JNull
  ∧ extract body content_type = Ok (ViaHtml, parse_html_table body).
Proof.
  intros Hbrace Hbracket.
  assert (Hb1 : 123%N ∉ strip body) by (intros H; by apply Hbrace, elem_of_strip).
  assert (Hb2 : 91%N ∉ strip body) by (intros H; by apply Hbracket, elem_of_strip).
  assert (Hnone : try_parse_json body = JNull).
  { unfold try_parse_json, loads_between, find.
    by rewrite !startswith_absent, !find_from_absent. }
  split; [done|]. by rewrite extract_unfold, Hnone.
Qed.

(** X9: the text that an embedded strategy hands to [json.loads] runs
    from the first opening character to the last closing one, both
    included: when [find] and [rfind] pass the guard, the text splits
    around these two occurrences and what is decoded is the part between
    them with its two delimiters. *)
Theorem embedded_text_delimited (txt : str) (a b : char) :
  find txt a ≠ (-1)%Z →
  (find txt a < rfind txt b)%Z →
  ∃ pre mid post,
    txt = pre ++ a :: mid ++ b :: post
    ∧ (a ∉ pre) ∧ (b ∉ post)
    ∧ loads_between txt (find txt a) (rfind txt b)
      = json_loads (a :: mid ++ [b]).
Proof.
  intros Hfound Hlt.
  destruct (slice_between txt a b Hfound Hlt) as (pre & mid & post & Ht & Ha & Hb & Hs).
  exists pre, mid, post. split_and!; [done..|].
  unfold loads_between. rewrite Hs.
  rewrite (proj2 (Z.ltb_lt _ _) Hlt).
  by rewrite (proj2 (Z.eqb_neq _ _) Hfound).
Qed.

(** The three shapes of an [int()] literal after trimming. *)
Lemma int_of_str_cases s :
  int_of_str s = read_unsigned (int_strip s)
  ∨ (∃ t, int_strip s = 43%N :: t ∧ int_of_str s = read_unsigned t)
  ∨ (∃ t, int_strip s = 45%N :: t ∧ int_of_str s = Z.opp <$> read_unsigned t).
Proof.
  unfold int_of_str. destruct (int_strip s) as [|c t]; [by left|].
  destruct (decide (c = 43%N)) as [->|H43]; [right; left; by eexists|].
  destruct (decide (c = 45%N)) as [->|H45]; [right; right; by eexists|].
  left. destruct c as [|p]; [done|].
  do 6 (destruct p as [p|p|]; try done).
Qed.

(** X11: the available count read from an HTML cell is null or an
    integer that is not negative, on a platform whose digits have
    natural values and where the minus sign is no digit; a cell without
    any digit gives null. *)
Theorem coerce_available_natural (available : str) :
  (∀ c d, decimal c = Some d → (0 ≤ d)%Z) →
  decimal 45%N = None →
  (coerce_available available = JNull
   ∨ ∃ n, coerce_available available = JInt n ∧ (0 ≤ n)%Z)
  ∧ (Forall (λ c, decimal c = None) available →
     coerce_available available = JNull).
Proof.
  intros Hnat Hminus. unfold coerce_available. split.
  - destruct (int_of_str _) as [n|] eqn:Hn; [|by left]. right. exists n.
    split; [done|].
    destruct (int_of_str_cases (filter (λ ch, is_Some (decimal ch)) available))
      as [H|[(t & Ht & H)|(t & Ht & H)]]; rewrite H in Hn.
    + by eapply read_unsigned_natural.
    + by eapply read_unsigned_natural.
    + assert (Hin : 45%N ∈ filter (λ ch, is_Some (decimal ch)) available).
      { apply elem_of_int_strip. rewrite Ht. apply list_elem_of_here. }
      apply list_elem_of_filter in Hin as [[d Hd] _]. congruence.
  - intros Hnone.
    assert (Hfil : filter (λ ch, is_Some (decimal ch)) available = []).
    { induction Hnone as [|c l Hc _ IH]; [done|].
      rewrite filter_cons_False; [done|]. rewrite Hc. by intros [d Hd]. }
    by rewrite Hfil.
Qed.

(** X10: every row of [parse_html_table] comes from a selected table
    row of at least three cells: its name and option are the first two
    cell texts, its count is the third one coerced, and its name does not
    normalise into the ignore set. *)
Theorem parse_html_table_rows (resp_text : str) (r : Row.t) :
  r ∈ parse_html_table resp_text →
  ∃ carpark option available rest,
    carpark :: option :: available :: rest ∈ select_cells resp_text
    ∧ r = {| Row.carpark := JStr carpark;
             Row.parking_option := JStr option;
             Row.available_spaces := coerce_available available |}
    ∧ _norm carpark ∉ IGNORE_CARPARKS.
Proof.
  unfold parse_html_table. intros (cells & Hin & Hrow)%list_elem_of_omap.
  unfold html_row in Hrow.
  destruct cells as [|carpark [|option [|available rest]]]; try done.
  case_bool_decide as Hi; [done|]. injection Hrow as <-.
  by exists carpark, option, available, rest.
Qed.

(** X13: for a JSON object the records are those of the first container
    key, in the order [data], [results], [items], [carParks], [CarParks],
    [Result], that holds a list; keys that are missing or hold something
    else are passed over, and an object where none holds a list gives no
    row. *)
Theorem first_list_key_supplies_rows (members : list (str * json)) :
  (∀ before key after items,
     container_keys = before ++ key :: after →
     (∀ k, k ∈ before → ¬ holds_list members k) →
     lookup_member key members = Some (JArr items) →
     rows_of_data (JObj members) = collect record_of items)
  ∧ ((∀ k, k ∈ container_keys → ¬ holds_list members k) →
     rows_of_data (JObj members) = Ok []).
Proof.
  assert (Hskip : ∀ keys, (∀ k, k ∈ keys → ¬ holds_list members k) →
                          ∀ more, probe_keys (keys ++ more) members
                                  = probe_keys more members).
  { induction keys as [|k keys IH]; intros Hno more; [done|]. simpl.
    destruct (lookup_member k members) as [[]|] eqn:Hk;
      try (apply IH; intros k' Hk'; apply Hno; by apply list_elem_of_further).
    destruct (Hno k); [apply list_elem_of_here|by eexists]. }
  split.
  - intros before key after items Hkeys Hno Hkey. unfold rows_of_data.
    rewrite Hkeys, Hskip by done. simpl. by rewrite Hkey.
  - intros Hno. unfold rows_of_data. rewrite <- (app_nil_r container_keys).
    by rewrite Hskip.
Qed.

End ExtractionFurther.

(** X14: the records of a JSON array are read without an exception
    exactly when every element is an object; there is then one row for
    each element, in order; an element of another type raises
    AttributeError. *)
Theorem json_records_ok_iff_objects (items : list json) :
  ((∃ rows, collect record_of items = Ok rows) ↔ Forall is_object items)
  ∧ (∀ rows, collect record_of items = Ok rows →
       Forall2 (λ item row, record_of item = Ok row) items rows)
  ∧ (∀ e, collect record_of items = Raise e → e = AttributeError).
Proof.
  induction items as [|item items (IH1 & IH2 & IH3)]; simpl.
  - split_and!; [|by intros ? [= <-]; constructor|done].
    split; [by constructor|by eexists].
  - destruct (record_of item) as [row|e] eqn:Hrow.
    + assert (Hobj : is_object item).
      { unfold record_of in Hrow. destruct item; try done. by eexists. }
      change (Ok row ≫= ?f) with (f row). cbv beta.
      destruct (collect record_of items) as [rows|e]; simpl.
      * split_and!; [|by intros ? [= <-]; constructor; [|apply IH2]|done].
        split; [|by eexists]. intros _. constructor; [done|].
        apply IH1. by eexists.
      * split_and!; [|done|by intros ? [= <-]; apply IH3].
        split; [by intros [? ?]|]. intros [_ H]%Forall_cons.
        apply IH1 in H as [? ?]. done.
    + assert (He : e = AttributeError ∧ ¬ is_object item).
      { unfold record_of in Hrow. destruct item; try done;
          (split; [congruence|intros [? ?]; done]). }
      destruct He as [-> Hno]. simpl. split_and!; [|done|by intros ? [= <-]].
      split; [by intros [? ?]|]. by intros [H _]%Forall_cons.
Qed.

Section CapacityFurther.
Context {P : Platform}.

(** X12: in the capacity table a later row replaces an earlier one of
    the same trimmed name: after a usable last row the lookup of its name
    gives its total, and every other name keeps what the rows before
    gave it. *)
Theorem capacity_last_row_wins (rows : list cap_row) (row : cap_row) :
  usable row = true →
  load_capacity_lookup (Some (rows ++ [row]))
    !! strip (default [] (cell_carpark row))
  = int_of_str (strip (str_of_cell (cell_total_spaces row)))
  ∧ ∀ name, name ≠ strip (default [] (cell_carpark row)) →
      load_capacity_lookup (Some (rows ++ [row])) !! name
      = load_capacity_lookup (Some rows) !! name.
Proof.
  intros Hu. simpl. rewrite foldl_snoc.
  unfold usable in Hu. unfold load_row at 1 3.
  destruct (strip (default [] (cell_carpark row))) as [|c name]; [done|].
  destruct (int_of_str _) as [t|]; [|done].
  destruct (t =? 0)%Z; [done|]. split.
  - by rewrite lookup_insert_eq.
  - intros name' Hne. by rewrite lookup_insert_ne.
Qed.

End CapacityFurther.

(** ** Composition of runs *)

Section Runs.
Context {P : Platform}.



End Runs.

(** ** The further properties on concrete inputs *)

(** White space around and inside the name of Victoria St. *)
Lemma _norm_depends_on_words_witness :
  @_norm basic_latin (u "  Victoria   St ") = @_norm basic_latin (u "Victoria St").
Proof.
  apply (@_norm_depends_on_words basic_latin). vm_compute. reflexivity.
Defined.

(** On Basic Latin text every display value of the alias table is its
    own canonical name. *)
Lemma canonical_idempotent_witness :
  @canonical basic_latin (@canonical basic_latin (u " victoria st "))
  = @canonical basic_latin (u " victoria st ").
Proof.
  apply (@canonical_idempotent basic_latin).
  - intros k v H. unfold ALIASES in H.
    repeat (rewrite lookup_insert in H; case_decide;
            [injection H as <-; vm_compute; reflexivity|]).
    rewrite lookup_empty in H. discriminate H.
  - vm_compute. reflexivity.
Defined.

(** A row for DOWNTOWN is dropped. *)
Lemma enrich_row_drops_suppressed_witness :
  @enrich_row basic_latin (u "2024-01-02 00:00:00") ∅
    {| Row.carpark := JStr (u "DOWNTOWN");
       Row.parking_option := JStr [];
       Row.available_spaces := JInt 3 |}
  = Ok None.
Proof.
  apply (@enrich_row_drops_suppressed basic_latin _ _ _ (u "DOWNTOWN")).
  - reflexivity.
  - right. vm_compute. reflexivity.
Defined.



(** A page without brace or bracket. *)
Lemma extract_without_brackets_witness :
  @try_parse_json (table_page page_cells) page_body = JNull
  ∧ @extract (table_page page_cells) page_body (u "application/json")
    = Ok (ViaHtml, @parse_html_table (table_page page_cells) page_body).
Proof.
  apply (@extract_without_brackets (table_page page_cells) page_body
           (u "application/json"));
    apply (bool_decide_unpack _); vm_compute; exact I.
Defined.

(** A script call around an object. *)
Lemma embedded_text_delimited_witness :
  ∃ pre mid post,
    js "callback({'a': 1});" = pre ++ 123%N :: mid ++ 125%N :: post
    ∧ (123%N ∉ pre) ∧ (125%N ∉ post)
    ∧ @loads_between basic_latin (js "callback({'a': 1});")
        (find (js "callback({'a': 1});") 123)
        (rfind (js "callback({'a': 1});") 125)
      = @json_loads basic_latin (123%N :: mid ++ [125%N]).
Proof.
  apply (@embedded_text_delimited basic_latin (js "callback({'a': 1});") 123 125).
  - vm_compute. discriminate.
  - vm_compute. reflexivity.
Defined.

(** The first row of the page. *)
Lemma parse_html_table_rows_witness :
  ∃ carpark option available rest,
    carpark :: option :: available :: rest
    ∈ @select_cells (table_page page_cells) page_body
    ∧ {| Row.carpark := JStr (u "Victoria St");
         Row.parking_option := JStr (u "Short Stay");
         Row.available_spaces := JInt 45 |}
      = {| Row.carpark := JStr carpark;
           Row.parking_option := JStr option;
           Row.available_spaces
             := @coerce_available (table_page page_cells) available |}
    ∧ @_norm (table_page page_cells) carpark ∉ IGNORE_CARPARKS.
Proof.
  apply (@parse_html_table_rows (table_page page_cells) page_body).
  vm_compute. apply list_elem_of_here.
Defined.

(** A cell with a thousands separator and a unit. *)
Lemma coerce_available_natural_witness :
  (@coerce_available basic_latin (u "1,234 free") = JNull
   ∨ ∃ n, @coerce_available basic_latin (u "1,234 free") = JInt n ∧ (0 ≤ n)%Z)
  ∧ (Forall (λ c, @decimal basic_latin c = None) (u "1,234 free") →
     @coerce_available basic_latin (u "1,234 free") = JNull).
Proof.
  apply (@coerce_available_natural basic_latin (u "1,234 free")).
  - intros c d. simpl. unfold ascii_decimal.
    destruct (Decoder.is_digit c); [|discriminate]. intros [= <-]. lia.
  - reflexivity.
Defined.

(** Two rows for Civic: the second total is the one kept. *)
Lemma capacity_last_row_wins_witness :
  @load_capacity_lookup basic_latin
    (Some ([{| cell_carpark := Some (u "Civic");
               cell_total_spaces := Some (u "100") |}]
           ++ [{| cell_carpark := Some (u " Civic ");
                  cell_total_spaces := Some (u "250") |}]))
    !! u "Civic"
  = Some 250%Z.
Proof.
  apply (proj1 (@capacity_last_row_wins basic_latin
                  [{| cell_carpark := Some (u "Civic");
                      cell_total_spaces := Some (u "100") |}]
                  {| cell_carpark := Some (u " Civic ");
                     cell_total_spaces := Some (u "250") |} eq_refl)).
Defined.

(** An object whose [data] is a string and whose [results] is a list. *)
Lemma first_list_key_supplies_rows_witness :
  rows_of_data
    (JObj [(u "data", JStr (u "none"));
           (u "results", JArr [JObj [(u "name", JStr (u "Civic"))]])])
  = collect record_of [JObj [(u "name", JStr (u "Civic"))]].
Proof.
  apply (proj1 (first_list_key_supplies_rows
                  [(u "data", JStr (u "none"));
                   (u "results", JArr [JObj [(u "name", JStr (u "Civic"))]])])
           [u "data"] (u "results")
           [u "items"; u "carParks"; u "CarParks"; u "Result"]).
  - reflexivity.
  - intros k Hk [items Hitems]. apply list_elem_of_In in Hk.
    destruct Hk as [<-|[]]. vm_compute in Hitems. discriminate Hitems.
  - vm_compute. reflexivity.
Defined.


